(** * DerivLikeApp: the simulation core of [deriv_like_app.jsx]

    A shallow embedding of the state held by the [DerivLikeApp] component
    (token, connection flag, balance, price, candles, orders, feed) and of
    the callbacks that change it: the mount effect, the two interval
    callbacks (price tick, order fills), [placeOrder], [toggleConnect] and
    the quick-action buttons.

    Modelling choices.
    - Numbers.  A JavaScript number is an IEEE-754 double; every finite
      double is a rational, so numbers are values of [Q] and [+], [-], [*]
      are the exact operations.  The rounding error of each binary64
      operation, NaN and the infinities are outside the model: the
      statements below are statements about decimal arithmetic.
    - Environment.  [Math.random()] and [Date.now()] are read from an
      oracle ([World]): each read takes the next sample.  Theorems quantify
      over every oracle, so they cover every possible outcome and every
      order in which React runs deferred updaters.
    - Platform functions whose result is a string or a transcendental value
      ([Number::toString], [toString(36)], [toLocaleTimeString],
      [Math.sin]) are fields of a [Platform] record; theorems quantify over
      every platform.
    - React state.  [setX(updater)] is applied to the latest state, in
      program order; this is React's semantics for functional updaters
      outside StrictMode's double invocation.
    - The cells [position], [wsRef], [chatMessages] and [binaryDigits] are
      not read or written by any of these callbacks and are left out. *)

From Stdlib Require Import ZArith QArith Qabs Qround List String Ascii Bool Lia Lqa.
Import ListNotations.
Open Scope Q_scope.

(** ** Numbers *)

Fixpoint pow10 (digits : nat) : positive :=
  match digits with
  | O => 1%positive
  | S d => (10 * pow10 d)%positive
  end.

(** [+x.toFixed(digits)]: the integer [n] for which [n / 10^digits] is
    closest to [|x|], the larger one on a tie, with the sign of [x]
    (ECMA-262, Number.prototype.toFixed, for [|x| < 1e21]); the unary plus
    reads the decimal string back as a number. *)
Definition toFixed (digits : nat) (x : Q) : Q :=
  let s := pow10 digits in
  let n := Qfloor (Qabs x * (Zpos s # 1) + (1 # 2)) in
  if Qle_bool 0 x then n # s else (- n)%Z # s.

(** ** Arrays and strings *)

(** [a.slice(0, n)] *)
Definition slice_front {A} (n : nat) (a : list A) : list A := firstn n a.

(** [a.slice(-n)] *)
Definition slice_back {A} (n : nat) (a : list A) : list A :=
  skipn (List.length a - n) a.

(** [s.slice(i, j)] on a string, [i <= j] *)
Definition str_slice (i j : nat) (s : string) : string := substring i (j - i) s.

Definition upper_ascii (c : ascii) : ascii :=
  let n := nat_of_ascii c in
  if (97 <=? n)%nat && (n <=? 122)%nat then ascii_of_nat (n - 32) else c.

Fixpoint toUpperCase (s : string) : string :=
  match s with
  | EmptyString => EmptyString
  | String c r => String (upper_ascii c) (toUpperCase r)
  end.

(** ** Data *)

Inductive Side := Buy | Sell.

Definition side_string (sd : Side) : string :=
  match sd with Buy => "buy" | Sell => "sell" end.

Inductive Status := Pending | Filled.

Record Order := mkOrder {
  o_id : string;
  o_side : Side;
  o_size : Q;
  o_price : Q;
  o_status : Status;
  o_placedAt : string;
  o_filledAt : option string;
  o_pnl : option Q
}.

Record Candle := mkCandle { c_time : string; c_price : Q }.

Inductive FeedType := FPrice | FTrade | FOrder | FSystem | FError.

Record FeedEvent := mkFeed { f_type : FeedType; f_text : string; f_time : string }.

(** The [useState] cells of the component that the core uses. *)
Record App := mkApp {
  apiToken : string;
  connected : bool;
  balance : Q;
  price : Q;
  candles : list Candle;
  orders : list Order;
  feed : list FeedEvent
}.

(** [useState] initial values. *)
Definition initial_app : App :=
  {| apiToken := ""; connected := false; balance := 1000 # 1; price := 11 # 10;
     candles := []; orders := []; feed := [] |}.

(** ** Environment *)

Record Platform := mkPlatform {
  Math_sin : Q -> Q;
  numberToString : Q -> string;
  numberToString36 : Q -> string;
  toLocaleTimeString : Z -> string
}.

Record World := mkWorld {
  random_src : nat -> Q;   (* successive results of Math.random() *)
  random_n : nat;
  clock_src : nat -> Z;    (* successive results of Date.now() / new Date() *)
  clock_n : nat
}.

Record Sim := mkSim { world : World; app : App }.

(** ** A state monad over [Sim] *)

Definition Eff (A : Type) : Type := Sim -> A * Sim.

Definition ret {A} (a : A) : Eff A := fun s => (a, s).

Definition bind {A B} (c : Eff A) (k : A -> Eff B) : Eff B :=
  fun s => let (a, s') := c s in k a s'.

Notation "x <- c ;; k" := (bind c (fun x => k))
  (at level 61, c at next level, right associativity).
Notation "c ;;; k" := (bind c (fun _ => k))
  (at level 61, right associativity).

Definition exec {A} (c : Eff A) (s : Sim) : Sim := snd (c s).

Fixpoint mapM {A B} (f : A -> Eff B) (l : list A) : Eff (list B) :=
  match l with
  | [] => ret []
  | x :: r => y <- f x ;; ys <- mapM f r ;; ret (y :: ys)
  end.

Definition math_random : Eff Q := fun s =>
  let w := world s in
  (random_src w (random_n w),
   {| world := {| random_src := random_src w; random_n := S (random_n w);
                  clock_src := clock_src w; clock_n := clock_n w |};
      app := app s |}).

Definition date_now : Eff Z := fun s =>
  let w := world s in
  (clock_src w (clock_n w),
   {| world := {| random_src := random_src w; random_n := random_n w;
                  clock_src := clock_src w; clock_n := S (clock_n w) |};
      app := app s |}).

Definition gets {A} (f : App -> A) : Eff A := fun s => (f (app s), s).

Definition modify (f : App -> App) : Eff unit := fun s =>
  (tt, {| world := world s; app := f (app s) |}).

Definition setApiToken (v : string) : Eff unit :=
  modify (fun a => {| apiToken := v; connected := connected a; balance := balance a;
                      price := price a; candles := candles a; orders := orders a;
                      feed := feed a |}).

Definition setConnected (v : bool) : Eff unit :=
  modify (fun a => {| apiToken := apiToken a; connected := v; balance := balance a;
                      price := price a; candles := candles a; orders := orders a;
                      feed := feed a |}).

Definition setBalance (f : Q -> Q) : Eff unit :=
  modify (fun a => {| apiToken := apiToken a; connected := connected a;
                      balance := f (balance a); price := price a;
                      candles := candles a; orders := orders a; feed := feed a |}).

Definition setPrice (v : Q) : Eff unit :=
  modify (fun a => {| apiToken := apiToken a; connected := connected a;
                      balance := balance a; price := v; candles := candles a;
                      orders := orders a; feed := feed a |}).

Definition setCandles (f : list Candle -> list Candle) : Eff unit :=
  modify (fun a => {| apiToken := apiToken a; connected := connected a;
                      balance := balance a; price := price a;
                      candles := f (candles a); orders := orders a; feed := feed a |}).

Definition setOrders (f : list Order -> list Order) : Eff unit :=
  modify (fun a => {| apiToken := apiToken a; connected := connected a;
                      balance := balance a; price := price a; candles := candles a;
                      orders := f (orders a); feed := feed a |}).

Definition setFeed (f : list FeedEvent -> list FeedEvent) : Eff unit :=
  modify (fun a => {| apiToken := apiToken a; connected := connected a;
                      balance := balance a; price := price a; candles := candles a;
                      orders := orders a; feed := f (feed a) |}).

(** ** The callbacks *)

(** [{...o, status:'filled', filledAt, pnl}] *)
Definition mark_filled (o : Order) (filledAt : string) (pnl : Q) : Order :=
  {| o_id := o_id o; o_side := o_side o; o_size := o_size o; o_price := o_price o;
     o_status := Filled; o_placedAt := o_placedAt o; o_filledAt := Some filledAt;
     o_pnl := Some pnl |}.

(** [[e, ...f].slice(0,50)], the way every callback adds to the feed. *)
Definition publish (e : FeedEvent) (f : list FeedEvent) : list FeedEvent :=
  slice_front 50 (e :: f).

Section Callbacks.
Variable P : Platform.

(** [new Date().toLocaleTimeString()] *)
Definition time_string : Eff string :=
  now <- date_now ;; ret (toLocaleTimeString P now).

(** The mount effect: 80 warm-up candles, the last one gives the price. *)
Definition initial_candle (now : Z) (i : nat) : Eff Candle :=
  let t := (now - (80 - Z.of_nat i) * 1000)%Z in
  r <- math_random ;;
  let p := toFixed 5 ((108 # 100) + Math_sin P (Z.of_nat i # 10) * (1 # 100)
                      + r * (2 # 1000)) in
  ret {| c_time := toLocaleTimeString P t; c_price := p |}.

Definition mount : Eff unit :=
  now <- date_now ;;
  initial <- mapM (initial_candle now) (seq 0 80) ;;
  setCandles (fun _ => initial) ;;;
  setPrice (c_price (nth (List.length initial - 1) initial
                         {| c_time := ""; c_price := 0 |})).

(** The 950 ms interval callback. *)
Definition tick : Eff unit :=
  prev <- gets price ;;
  r <- math_random ;;
  let delta := (r - (5 # 10)) * (15 # 10000) in
  let next := toFixed 5 (prev + delta) in
  time <- time_string ;;
  setCandles (fun c => slice_back 200 (c ++ [{| c_time := time; c_price := next |}])) ;;;
  setFeed (publish {| f_type := FPrice;
                      f_text := "Price " ++ numberToString P next;
                      f_time := time |}) ;;;
  setPrice next.

(** The profit expression of the fill callback. *)
Definition profit_of (price : Q) (o : Order) : Q :=
  toFixed 2 ((match o_side o with
              | Buy => price - o_price o
              | Sell => o_price o - price
              end) * (o_size o * (100 # 1))).

(** The function mapped over the orders by the 3500 ms interval callback.
    [Math.random()] is only called for a pending order ([&&] is
    short-circuit). *)
Definition settle (price : Q) (o : Order) : Eff Order :=
  match o_status o with
  | Filled => ret o
  | Pending =>
      r <- math_random ;;
      if Qle_bool r (5 # 10) then ret o
      else
        let profit := profit_of price o in
        setBalance (fun b => toFixed 2 (b + profit)) ;;;
        t1 <- time_string ;;
        setFeed (publish {| f_type := FTrade;
                            f_text := "Order " ++ o_id o ++ " filled, P/L "
                                      ++ numberToString P profit;
                            f_time := t1 |}) ;;;
        t2 <- time_string ;;
        ret (mark_filled o t2 profit)
  end.

(** The 3500 ms interval callback.  Its effect lists [price] as a
    dependency and is registered again whenever the price changes, so the
    [price] the callback closes over is the current one. *)
Definition sweep : Eff unit :=
  price <- gets price ;;
  os <- gets orders ;;
  match os with
  | [] => ret tt
  | _ => updated <- mapM (settle price) os ;; setOrders (fun _ => updated)
  end.

Definition placeOrder (side : Side) (size : Q) : Eff unit :=
  r <- math_random ;;
  let id := str_slice 2 9 (numberToString36 P r) in
  price <- gets price ;;
  placedAt <- time_string ;;
  let ord := {| o_id := id; o_side := side; o_size := size; o_price := price;
                o_status := Pending; o_placedAt := placedAt;
                o_filledAt := None; o_pnl := None |} in
  setOrders (fun o => slice_front 50 (ord :: o)) ;;;
  setFeed (publish {| f_type := FOrder;
                      f_text := "Placed " ++ toUpperCase (side_string side) ++ " @ "
                                ++ numberToString P price ++ " size "
                                ++ numberToString P size;
                      f_time := placedAt |}).

Definition system_event (text : string) : Eff unit :=
  t <- time_string ;;
  setFeed (publish {| f_type := FSystem; f_text := text; f_time := t |}).

Definition toggleConnect : Eff unit :=
  c <- gets connected ;;
  if c then
    setConnected false ;;;
    system_event "Disconnected from market"
  else
    tok <- gets apiToken ;;
    if String.eqb tok "" then
      t <- time_string ;;
      setFeed (publish {| f_type := FError;
                          f_text := "No API token configured. Use settings.";
                          f_time := t |})
    else
      setConnected true ;;;
      system_event "Connected to market (mock)".

(** The settings button: [const token = prompt(...); if(token) setApiToken(token)]. *)
Definition promptToken (answer : option string) : Eff unit :=
  match answer with
  | None => ret tt
  | Some token => if String.eqb token "" then ret tt else setApiToken token
  end.

Definition deposit : Eff unit :=
  setBalance (fun b => b + (100 # 1)) ;;;
  system_event "Deposited $100 (demo)".

Definition resetAccount : Eff unit :=
  setBalance (fun _ => 1000 # 1) ;;;
  setOrders (fun _ => []) ;;;
  system_event "Reset demo state".

Definition runIndicator : Eff unit :=
  system_event "Indicator triggered (mock)".

(** ** Runs *)

Inductive Op :=
| OpTick
| OpSweep
| OpPlaceOrder (side : Side) (size : Q)
| OpToggleConnect
| OpPromptToken (answer : option string)
| OpDeposit
| OpReset
| OpRunIndicator.

Definition step (op : Op) : Eff unit :=
  match op with
  | OpTick => tick
  | OpSweep => sweep
  | OpPlaceOrder side size => placeOrder side size
  | OpToggleConnect => toggleConnect
  | OpPromptToken answer => promptToken answer
  | OpDeposit => deposit
  | OpReset => resetAccount
  | OpRunIndicator => runIndicator
  end.

Fixpoint run (ops : list Op) (s : Sim) : Sim :=
  match ops with
  | [] => s
  | op :: rest => run rest (exec (step op) s)
  end.

(** The state after the first render and its effects. *)
Definition boot (w : World) : Sim :=
  exec mount {| world := w; app := initial_app |}.

(** The two interval timers. *)
Inductive Timer := PriceTimer | FillTimer.

Definition timer_op (t : Timer) : Op :=
  match t with PriceTimer => OpTick | FillTimer => OpSweep end.

End Callbacks.

(** ** A concrete platform and concrete worlds

    Used to evaluate the callbacks on closed inputs.  The platform prints
    numbers with five decimals, base-36 fractions with eleven digits and
    times as HH:MM:SS (UTC); its sine is a Taylor polynomial after range
    reduction.  No theorem depends on these choices. *)
Module Demo.

Definition digit_char (d : Z) : ascii :=
  if (d <? 10)%Z then ascii_of_nat (48 + Z.to_nat d) else ascii_of_nat (87 + Z.to_nat d).

Fixpoint frac_digits (base : Z) (k : nat) (r : Q) : string :=
  match k with
  | O => EmptyString
  | S k' =>
      let d := Qfloor (r * inject_Z base) in
      String (digit_char d) (frac_digits base k' (Qred (r * inject_Z base - inject_Z d)))
  end.

Fixpoint nat_digits (fuel : nat) (n : Z) (acc : string) : string :=
  match fuel with
  | O => acc
  | S f =>
      let acc' := String (digit_char (n mod 10)) acc in
      if (n <? 10)%Z then acc' else nat_digits f (n / 10) acc'
  end.

Definition number_to_string (x : Q) : string :=
  let a := Qabs x in
  let i := Qfloor a in
  ((if Qle_bool 0 x then "" else "-") ++ nat_digits 30 i "" ++ "."
   ++ frac_digits 10 5 (Qred (a - inject_Z i)))%string.

Definition number_to_string36 (r : Q) : string :=
  ("0." ++ frac_digits 36 11 (Qred r))%string.

Definition two_digits (n : Z) : string :=
  String (digit_char (n / 10)) (String (digit_char (n mod 10)) EmptyString).

Definition time_to_string (ms : Z) : string :=
  let sec := ((ms / 1000) mod 86400)%Z in
  (two_digits (sec / 3600) ++ ":" ++ two_digits ((sec / 60) mod 60) ++ ":"
   ++ two_digits (sec mod 60))%string.

Definition sine (x : Q) : Q :=
  let tau := 710 # 113 in
  let k := Qfloor (x / tau + (1 # 2)) in
  let y := Qred (x - inject_Z k * tau) in
  Qred (y - y ^ 3 / (6 # 1) + y ^ 5 / (120 # 1) - y ^ 7 / (5040 # 1)
        + y ^ 9 / (362880 # 1) - y ^ 11 / (39916800 # 1)).

Definition platform : Platform :=
  {| Math_sin := sine; numberToString := number_to_string;
     numberToString36 := number_to_string36; toLocaleTimeString := time_to_string |}.

(** [Math.random()] returns [rs] in turn and [rest] afterwards; the clock
    advances by 950 ms per read. *)
Definition world_of (rs : list Q) (rest : Q) : World :=
  {| random_src := fun i => nth i rs rest; random_n := 0;
     clock_src := fun i => (1700000000000 + 950 * Z.of_nat i)%Z; clock_n := 0 |}.

(** Every draw is 0, the least value [Math.random()] can return. *)
Definition world_zero : World := world_of [] 0.

(** Every draw is 3/4: every pending order fills at the first sweep. *)
Definition world_high : World := world_of [] (3 # 4).

(** After the first render. *)
Definition booted : Sim := boot platform world_high.

(** One pending buy order, then one price tick. *)
Definition with_order : Sim :=
  run platform [OpPlaceOrder Buy (1 # 1); OpTick] booted.

(** The order of [with_order] once the next sweep has filled it. *)
Definition filled_order : Order :=
  {| o_id := "r000000"; o_side := Buy; o_size := 1 # 1; o_price := 109149 # 100000;
     o_status := Filled; o_placedAt := "22:13:20"; o_filledAt := Some "22:13:23"%string;
     o_pnl := Some (4 # 100) |}.

(** Fifty orders, fifty feed events, two hundred candles. *)
Definition at_capacity : Sim :=
  run platform (repeat (OpPlaceOrder Sell (1 # 2)) 50 ++ repeat OpTick 120) booted.

(** A token was entered. *)
Definition with_token : Sim :=
  run platform [OpPromptToken (Some "demo-token"%string)] booted.

(** A token was entered and the connect button pressed. *)
Definition online : Sim :=
  run platform [OpPromptToken (Some "demo-token"%string); OpToggleConnect] booted.

End Demo.

(** ** Vocabulary of the statements *)

(** [x] has at most [digits] decimals. *)
Definition on_grid (digits : nat) (x : Q) : Prop :=
  exists n : Z, x == n # pow10 digits.

(** The capacities of the three bounded arrays. *)
Definition bounded (a : App) : Prop :=
  (List.length (orders a) <= 50)%nat /\ (List.length (feed a) <= 50)%nat
  /\ (List.length (candles a) <= 200)%nat.

(** [pnl] and [filledAt] are present exactly on a filled order. *)
Definition order_wf (o : Order) : Prop :=
  match o_status o with
  | Pending => o_pnl o = None /\ o_filledAt o = None
  | Filled => (exists v, o_pnl o = Some v) /\ (exists t, o_filledAt o = Some t)
  end.

(** The fields a fill does not touch. *)
Definition same_frame (o o' : Order) : Prop :=
  o_id o' = o_id o /\ o_side o' = o_side o /\ o_size o' = o_size o
  /\ o_price o' = o_price o /\ o_placedAt o' = o_placedAt o.

(** The pnl of the specification, written as the specification writes it. *)
Definition spec_pnl (fillPrice : Q) (o : Order) : Q :=
  match o_side o with
  | Buy => toFixed 2 ((fillPrice - o_price o) * o_size o * (100 # 1))
  | Sell => toFixed 2 ((o_price o - fillPrice) * o_size o * (100 # 1))
  end.

(** [o'] is [o] filled at price [p]. *)
Definition fills_at (p : Q) (o o' : Order) : Prop :=
  o_status o = Pending /\ o_status o' = Filled /\ same_frame o o'
  /\ o_pnl o' = Some (spec_pnl p o) /\ exists t, o_filledAt o' = Some t.

(** One order across sweeps: untouched, or filled once. *)
Definition evolves (o o' : Order) : Prop :=
  o' = o \/ exists p, fills_at p o o'.




(** The time string the next clock read of [s] gives. *)
Definition clock_time (P : Platform) (s : Sim) : string :=
  toLocaleTimeString P (clock_src (world s) (clock_n (world s))).

(** [a] with the connection flag set to [c] and [e] published. *)
Definition connection_set (a : App) (c : bool) (e : FeedEvent) : App :=
  {| apiToken := apiToken a; connected := c; balance := balance a; price := price a;
     candles := candles a; orders := orders a; feed := publish e (feed a) |}.

(** The order built by [placeOrder] in state [s]. *)
Definition new_order (P : Platform) (side : Side) (size : Q) (s : Sim) : Order :=
  {| o_id := str_slice 2 9 (numberToString36 P (random_src (world s) (random_n (world s))));
     o_side := side; o_size := size; o_price := price (app s);
     o_status := Pending;
     o_placedAt := toLocaleTimeString P (clock_src (world s) (clock_n (world s)));
     o_filledAt := None; o_pnl := None |}.

(** The candle appended by [tick] in state [s]. *)
Definition new_candle (P : Platform) (s : Sim) : Candle :=
  {| c_time := toLocaleTimeString P (clock_src (world s) (clock_n (world s)));
     c_price := toFixed 5 (price (app s)
                           + (random_src (world s) (random_n (world s)) - (5 # 10))
                             * (15 # 10000)) |}.

(** What the mapped function [settle] leaves alone in the state, and the
    feed bound it keeps. *)
Definition sweep_keeps (a a' : App) : Prop :=
  apiToken a' = apiToken a /\ connected a' = connected a /\ price a' = price a
  /\ candles a' = candles a /\ orders a' = orders a
  /\ ((List.length (feed a) <= 50)%nat -> (List.length (feed a') <= 50)%nat).


(** ** The chat and the digit panel

    [chatMessages] and [binaryDigits] are cells of their own: [sendChat]
    and the shuffle button touch nothing else, so they are modelled beside
    [App], reading the same oracle. *)

Record ChatMessage := mkChat { m_id : Z; m_user : string; m_text : string }.

(** [useState] initial value of [chatMessages]. *)
Definition initial_chat : list ChatMessage :=
  [{| m_id := 1; m_user := "System"; m_text := "Welcome to your demo trading app." |}].

(** [sendChat(text)]: [Date.now()] is read when the message is built. *)
Definition sendChat (text : string) (w : World) (m : list ChatMessage)
  : list ChatMessage * World :=
  ({| m_id := clock_src w (clock_n w); m_user := "You"; m_text := text |} :: m,
   {| random_src := random_src w; random_n := random_n w;
      clock_src := clock_src w; clock_n := S (clock_n w) |}).

Fixpoint sendChats (texts : list string) (w : World) (m : list ChatMessage)
  : list ChatMessage * World :=
  match texts with
  | [] => (m, w)
  | t :: rest => let (m', w') := sendChat t w m in sendChats rest w' m'
  end.




(** ** More vocabulary *)



Definition is_pending (o : Order) : bool :=
  match o_status o with Pending => true | Filled => false end.

Definition count_pending (os : list Order) : nat :=
  List.length (filter is_pending os).

Definition is_tick (op : Op) : bool :=
  match op with OpTick => true | _ => false end.

Definition count_ticks (ops : list Op) : nat :=
  List.length (filter is_tick ops).

Definition is_toggle (op : Op) : bool :=
  match op with OpToggleConnect => true | _ => false end.


(** The placement of the orders [l], first to last. *)
Definition place_all (l : list (Side * Q)) : list Op :=
  map (fun x => OpPlaceOrder (fst x) (snd x)) l.

(** A sample platform state with one pending order where every draw is 0. *)
Definition demo_pending_low : Sim :=
  run Demo.platform [OpPlaceOrder Sell (3 # 1); OpTick]
      (boot Demo.platform Demo.world_zero).

(** [Demo.with_order] after the sweep that fills its order. *)
Definition demo_all_filled : Sim := run Demo.platform [OpSweep] Demo.with_order.

(** * Properties *)

(** ** Rounding *)






Lemma toFixed_comp (d : nat) (x y : Q) : x == y -> toFixed d x = toFixed d y.
Proof.
  intros E. unfold toFixed.
  assert (F : Qfloor (Qabs x * (Z.pos (pow10 d) # 1) + (1 # 2))
              = Qfloor (Qabs y * (Z.pos (pow10 d) # 1) + (1 # 2))).
  { apply Qfloor_comp. rewrite E. reflexivity. }
  rewrite F.
  destruct (Qle_bool 0 x) eqn:Hx, (Qle_bool 0 y) eqn:Hy; try reflexivity.
  - rewrite Qle_bool_iff in Hx. rewrite E in Hx. rewrite <- Qle_bool_iff in Hx. congruence.
  - rewrite Qle_bool_iff in Hy. rewrite <- E in Hy. rewrite <- Qle_bool_iff in Hy. congruence.
Qed.



Lemma toFixed_on_grid (d : nat) (x : Q) : on_grid d (toFixed d x).
Proof.
  unfold toFixed, on_grid. destruct (Qle_bool 0 x); eexists; reflexivity.
Qed.




(** ** Arrays *)

Lemma slice_front_length {A} (n : nat) (a : list A) :
  (List.length (slice_front n a) <= n)%nat.
Proof. unfold slice_front. rewrite length_firstn. lia. Qed.

Lemma slice_back_length {A} (n : nat) (a : list A) :
  (List.length (slice_back n a) <= n)%nat.
Proof. unfold slice_back. rewrite length_skipn. lia. Qed.

Lemma publish_length (e : FeedEvent) (f : list FeedEvent) :
  (List.length (publish e f) <= 50)%nat.
Proof. apply slice_front_length. Qed.

(** At capacity the front slice drops the last (oldest) entry. *)
Lemma slice_front_evicts {A} (n : nat) (x : A) (a : list A) :
  List.length a = n -> slice_front n (x :: a) = removelast (x :: a).
Proof.
  intros H. unfold slice_front. subst n. revert x.
  induction a as [|y a IH]; intros x; [reflexivity|].
  change (x :: firstn (List.length a) (y :: a) = x :: removelast (y :: a)).
  now rewrite IH.
Qed.

(** At capacity the back slice drops the first (oldest) entry. *)
Lemma slice_back_evicts {A} (n : nat) (x : A) (a : list A) :
  List.length a = n -> (0 < n)%nat -> slice_back n (a ++ [x]) = tl a ++ [x].
Proof.
  intros H Hn. unfold slice_back. rewrite length_app. simpl.
  replace (List.length a + 1 - n)%nat with 1%nat by lia.
  destruct a as [|y a]; [simpl in H; lia | reflexivity].
Qed.

(** ** The fill callback, order by order *)

#[local] Arguments publish : simpl never.
#[local] Arguments slice_front : simpl never.
#[local] Arguments slice_back : simpl never.
#[local] Arguments toFixed : simpl never.

Ltac eff :=
  unfold exec, system_event, time_string, setApiToken, setConnected, setBalance,
    setPrice, setCandles, setOrders, setFeed, bind, ret, gets, modify,
    math_random, date_now; simpl.

Section Fills.
Context (P : Platform).

Lemma profit_of_spec (p : Q) (o : Order) : profit_of p o = spec_pnl p o.
Proof.
  unfold profit_of, spec_pnl. destruct (o_side o); apply toFixed_comp; ring.
Qed.

(** What [settle] does to one order and to the state. *)
Lemma settle_cases (p : Q) (o : Order) (s : Sim) :
  (o_status o = Filled /\ settle P p o s = (o, s))
  \/ (o_status o = Pending /\ fst (settle P p o s) = o
      /\ app (snd (settle P p o s)) = app s)
  \/ (o_status o = Pending
      /\ exists t1 t2,
          fst (settle P p o s) = mark_filled o t2 (profit_of p o)
          /\ app (snd (settle P p o s)) =
             {| apiToken := apiToken (app s); connected := connected (app s);
                balance := toFixed 2 (balance (app s) + profit_of p o);
                price := price (app s); candles := candles (app s);
                orders := orders (app s);
                feed := publish {| f_type := FTrade;
                                   f_text := "Order " ++ o_id o ++ " filled, P/L "
                                             ++ numberToString P (profit_of p o);
                                   f_time := t1 |} (feed (app s)) |}).
Proof.
  unfold settle. destruct (o_status o) eqn:St.
  - right. eff. destruct (Qle_bool _ _).
    + left. auto.
    + right. split; [reflexivity|]. do 2 eexists. split; reflexivity.
  - left. auto.
Qed.

Lemma mark_filled_fills (p : Q) (o : Order) (t : string) :
  o_status o = Pending -> fills_at p o (mark_filled o t (profit_of p o)).
Proof.
  intros St. unfold fills_at, same_frame. simpl. rewrite profit_of_spec.
  repeat split; eauto.
Qed.

Lemma exec_bind {A B} (c : Eff A) (k : A -> Eff B) (s : Sim) :
  exec (bind c k) s = exec (k (fst (c s))) (snd (c s)).
Proof. unfold exec, bind. now destruct (c s). Qed.

Lemma mapM_cons {A B} (f : A -> Eff B) (x : A) (l : list A) (s : Sim) :
  mapM f (x :: l) s =
  (fst (f x s) :: fst (mapM f l (snd (f x s))), snd (mapM f l (snd (f x s)))).
Proof.
  simpl. unfold bind, ret. destruct (f x s) as [y s1]. simpl.
  destruct (mapM f l s1) as [ys s2]. reflexivity.
Qed.

(** Every order is kept in place: untouched or filled at [p]. *)
Lemma settle_all_orders (p : Q) (os : list Order) (s : Sim) :
  Forall2 (fun o o' => o' = o \/ fills_at p o o') os (fst (mapM (settle P p) os s)).
Proof.
  revert s. induction os as [|o os IH]; intros s; [constructor|].
  rewrite mapM_cons. simpl. constructor; [|apply IH].
  destruct (settle_cases p o s) as [[_ E]|[(_ & E & _)|(St & t1 & t2 & E & _)]].
  - rewrite E. now left.
  - rewrite E. now left.
  - rewrite E. right. now apply mark_filled_fills.
Qed.

Lemma settle_all_keeps (p : Q) (os : list Order) (s : Sim) :
  sweep_keeps (app s) (app (snd (mapM (settle P p) os s))).
Proof.
  revert s. induction os as [|o os IH]; intros s.
  - simpl. unfold sweep_keeps. tauto.
  - rewrite mapM_cons. simpl.
    specialize (IH (snd (settle P p o s))).
    destruct IH as (I1 & I2 & I3 & I4 & I5 & I6).
    assert (K : sweep_keeps (app s) (app (snd (settle P p o s)))).
    { destruct (settle_cases p o s) as [[_ E]|[(_ & _ & E)|(St & t1 & t2 & _ & E)]].
      - rewrite E. unfold sweep_keeps. tauto.
      - rewrite E. unfold sweep_keeps. tauto.
      - rewrite E. unfold sweep_keeps. cbn [apiToken connected price candles orders feed].
        repeat split; try reflexivity. intros _. apply publish_length. }
    destruct K as (K1 & K2 & K3 & K4 & K5 & K6).
    unfold sweep_keeps. repeat split; try congruence. auto.
Qed.





(** The state after a sweep, in terms of the mapped [settle]. *)
Lemma sweep_app (s : Sim) :
  let r := mapM (settle P (price (app s))) (orders (app s)) s in
  orders (app (exec (sweep P) s)) = fst r
  /\ apiToken (app (exec (sweep P) s)) = apiToken (app (snd r))
  /\ connected (app (exec (sweep P) s)) = connected (app (snd r))
  /\ balance (app (exec (sweep P) s)) = balance (app (snd r))
  /\ price (app (exec (sweep P) s)) = price (app (snd r))
  /\ candles (app (exec (sweep P) s)) = candles (app (snd r))
  /\ feed (app (exec (sweep P) s)) = feed (app (snd r)).
Proof.
  unfold sweep, exec, bind, gets. cbn [fst snd].
  destruct (orders (app s)) as [|o os] eqn:Os.
  - simpl. rewrite Os. tauto.
  - set (r := mapM (settle P (price (app s))) (o :: os) s).
    cbv zeta. destruct r as [u s1]. simpl. tauto.
Qed.

End Fills.

(** ** Invariants of runs *)

Section Runs.
Context (P : Platform).

Lemma mapM_length {A B} (f : A -> Eff B) (l : list A) (s : Sim) :
  List.length (fst (mapM f l s)) = List.length l.
Proof.
  revert s. induction l as [|x l IH]; intros s; [reflexivity|].
  rewrite mapM_cons. simpl. now rewrite IH.
Qed.

Lemma initial_candles_spec (now : Z) (l : list nat) (s : Sim) :
  app (snd (mapM (initial_candle P now) l s)) = app s
  /\ Forall (fun c => on_grid 5 (c_price c)) (fst (mapM (initial_candle P now) l s)).
Proof.
  revert s. induction l as [|i l IH]; intros s.
  - simpl. split; [reflexivity | constructor].
  - rewrite mapM_cons. cbn [fst snd].
    destruct (IH (snd (initial_candle P now i s))) as [I1 I2].
    split.
    + rewrite I1. reflexivity.
    + constructor; [|exact I2]. unfold initial_candle. eff. apply toFixed_on_grid.
Qed.

(** The state after mounting. *)
Lemma boot_app (w : World) :
  apiToken (app (boot P w)) = ""%string /\ connected (app (boot P w)) = false
  /\ balance (app (boot P w)) = 1000 # 1 /\ on_grid 5 (price (app (boot P w)))
  /\ List.length (candles (app (boot P w))) = 80%nat
  /\ orders (app (boot P w)) = [] /\ feed (app (boot P w)) = [].
Proof.
  unfold boot, mount. pose proof (length_seq 80 0) as L80.
  generalize dependent (seq 0 80). intros l L80.
  rewrite !exec_bind.
  set (s1 := snd (date_now _)).
  set (now := fst (date_now _)).
  pose proof (initial_candles_spec now l s1) as [A G].
  pose proof (mapM_length (initial_candle P now) l s1) as L.
  destruct (mapM (initial_candle P now) l s1) as [initial s2].
  cbn [fst snd] in A, G, L |- *.
  unfold exec, setCandles, setPrice, modify.
  cbn [fst snd app apiToken connected balance price candles orders feed].
  rewrite A. subst s1.
  cbn [date_now snd app initial_app apiToken connected balance price candles orders feed].
  repeat split; try reflexivity; try congruence.
  rewrite Forall_forall in G. apply G. apply nth_In. lia.
Qed.

Lemma sweep_orders_length (s : Sim) :
  List.length (orders (app (exec (sweep P) s))) = List.length (orders (app s)).
Proof.
  destruct (sweep_app P s) as (E & _). rewrite E. apply mapM_length.
Qed.

Lemma step_bounded (op : Op) (s : Sim) :
  bounded (app s) -> bounded (app (exec (step P op) s)).
Proof.
  intros (B1 & B2 & B3). destruct op; unfold step.
  - unfold tick. eff. unfold bounded. cbn [orders feed candles].
    auto using publish_length, slice_back_length.
  - destruct (sweep_app P s) as (E1 & _ & _ & _ & _ & E6 & E7).
    pose proof (settle_all_keeps P (price (app s)) (orders (app s)) s)
      as (_ & _ & _ & K4 & _ & K6).
    unfold bounded. rewrite sweep_orders_length, E6, E7, K4. auto.
  - unfold placeOrder. eff. unfold bounded. cbn [orders feed candles].
    auto using publish_length, slice_front_length.
  - unfold toggleConnect. eff. destruct (connected (app s)); eff.
    + unfold bounded. cbn [orders feed candles]. auto using publish_length.
    + destruct (String.eqb (apiToken (app s)) ""%string); eff;
        unfold bounded; cbn [orders feed candles]; auto using publish_length.
  - unfold promptToken. destruct answer as [token|]; [destruct (String.eqb token ""%string)|];
      eff; unfold bounded; auto.
  - unfold deposit. eff. unfold bounded. cbn [orders feed candles].
    auto using publish_length.
  - unfold resetAccount. eff. unfold bounded. cbn [orders feed candles].
    repeat split; auto using publish_length. simpl. lia.
  - unfold runIndicator. eff. unfold bounded. cbn [orders feed candles].
    auto using publish_length.
Qed.

Lemma run_bounded (ops : list Op) (s : Sim) :
  bounded (app s) -> bounded (app (run P ops s)).
Proof.
  revert s. induction ops as [|op ops IH]; intros s B; [exact B|].
  simpl. apply IH. now apply step_bounded.
Qed.

Lemma Forall_slice_front {A} (Q : A -> Prop) (n : nat) (l : list A) :
  Forall Q l -> Forall Q (slice_front n l).
Proof.
  intros H. rewrite <- (firstn_skipn n l) in H.
  apply Forall_app in H. exact (proj1 H).
Qed.


Lemma fills_at_wf (p : Q) (o o' : Order) : fills_at p o o' -> order_wf o'.
Proof.
  intros (_ & St & _ & Hp & Ht). unfold order_wf. rewrite St. eauto.
Qed.

Lemma sweep_orders (s : Sim) :
  Forall2 (fun o o' => o' = o \/ fills_at (price (app s)) o o')
          (orders (app s)) (orders (app (exec (sweep P) s))).
Proof.
  destruct (sweep_app P s) as (E & _). rewrite E. apply settle_all_orders.
Qed.

Lemma Forall2_wf (R : Order -> Order -> Prop) (os os' : list Order) :
  (forall o o', R o o' -> order_wf o -> order_wf o') ->
  Forall2 R os os' -> Forall order_wf os -> Forall order_wf os'.
Proof.
  intros HR F. induction F as [|o o' os os' H F IH]; intros W; [constructor|].
  inversion W; subst. constructor; eauto.
Qed.

Lemma step_wf (op : Op) (s : Sim) :
  Forall order_wf (orders (app s)) ->
  Forall order_wf (orders (app (exec (step P op) s))).
Proof.
  intros W. destruct op; unfold step.
  - unfold tick. eff. exact W.
  - eapply Forall2_wf; [|apply sweep_orders|exact W].
    intros o o' [->|F] Wo; [exact Wo | eapply fills_at_wf; eauto].
  - unfold placeOrder. eff. apply Forall_slice_front. constructor; [|exact W].
    unfold order_wf. simpl. auto.
  - unfold toggleConnect. eff. destruct (connected (app s)); eff; [exact W|].
    destruct (String.eqb (apiToken (app s)) ""%string); eff; exact W.
  - unfold promptToken.
    destruct answer as [token|]; [destruct (String.eqb token ""%string)|]; eff; exact W.
  - unfold deposit. eff. exact W.
  - unfold resetAccount. eff. constructor.
  - unfold runIndicator. eff. exact W.
Qed.

Lemma run_wf (ops : list Op) (s : Sim) :
  Forall order_wf (orders (app s)) -> Forall order_wf (orders (app (run P ops s))).
Proof.
  revert s. induction ops as [|op ops IH]; intros s W; [exact W|].
  simpl. apply IH. now apply step_wf.
Qed.




(** *** Timers only *)

Lemma evolves_trans (a b c : Order) : evolves a b -> evolves b c -> evolves a c.
Proof.
  intros [->|(p & F)] H; [exact H|].
  destruct H as [->|(q & G)]; [right; eauto|].
  destruct F as (_ & Fb & _), G as (Gb & _). congruence.
Qed.

Lemma Forall2_evolves_refl (os : list Order) : Forall2 evolves os os.
Proof. induction os; constructor; [now left | assumption]. Qed.

Lemma Forall2_evolves_trans (l1 l2 l3 : list Order) :
  Forall2 evolves l1 l2 -> Forall2 evolves l2 l3 -> Forall2 evolves l1 l3.
Proof.
  intros F. revert l3. induction F as [|a b l1 l2 H F IH]; intros l3 G.
  - inversion G. constructor.
  - inversion G as [|? c ? l3' H' G']; subst. constructor.
    + eapply evolves_trans; eauto.
    + now apply IH.
Qed.

Lemma tick_keeps (s : Sim) :
  orders (app (exec (tick P) s)) = orders (app s)
  /\ balance (app (exec (tick P) s)) = balance (app s).
Proof. unfold tick. eff. auto. Qed.

Lemma sweep_evolves (s : Sim) :
  Forall2 evolves (orders (app s)) (orders (app (exec (sweep P) s))).
Proof.
  eapply Forall2_impl; [|apply sweep_orders].
  intros o o' [->|F]; [now left | right; eauto].
Qed.

Lemma timers_evolve (ts : list Timer) (s : Sim) :
  Forall2 evolves (orders (app s)) (orders (app (run P (map timer_op ts) s))).
Proof.
  revert s. induction ts as [|t ts IH]; intros s; [apply Forall2_evolves_refl|].
  cbn [map run]. eapply Forall2_evolves_trans; [|apply IH].
  destruct t; cbn [timer_op step].
  - destruct (tick_keeps s) as [E _]. rewrite E. apply Forall2_evolves_refl.
  - apply sweep_evolves.
Qed.



End Runs.

(** ** The price tick *)


Section Tick.
Context (P : Platform).



End Tick.

(** ** The connect button *)

Section Toggle.
Context (P : Platform).

Lemma toggle_connected (s : Sim) :
  connected (app s) = true ->
  app (exec (toggleConnect P) s)
  = connection_set (app s) false
      {| f_type := FSystem; f_text := "Disconnected from market";
         f_time := clock_time P s |}.
Proof. intros C. unfold toggleConnect. eff. rewrite C. reflexivity. Qed.

Lemma toggle_no_token (s : Sim) :
  connected (app s) = false -> apiToken (app s) = ""%string ->
  app (exec (toggleConnect P) s)
  = connection_set (app s) false
      {| f_type := FError; f_text := "No API token configured. Use settings.";
         f_time := clock_time P s |}.
Proof.
  intros C T. unfold toggleConnect. eff. rewrite C, T. simpl.
  unfold connection_set. now rewrite C.
Qed.

Lemma toggle_with_token (s : Sim) :
  connected (app s) = false -> apiToken (app s) <> ""%string ->
  app (exec (toggleConnect P) s)
  = connection_set (app s) true
      {| f_type := FSystem; f_text := "Connected to market (mock)";
         f_time := clock_time P s |}.
Proof.
  intros C T. apply String.eqb_neq in T.
  unfold toggleConnect. eff. rewrite C, T. reflexivity.
Qed.

(** A connected state has a token: connecting needs one and nothing
    removes it. *)
Lemma step_token (op : Op) (s : Sim) :
  (connected (app s) = true -> apiToken (app s) <> ""%string) ->
  connected (app (exec (step P op) s)) = true ->
  apiToken (app (exec (step P op) s)) <> ""%string.
Proof.
  intros I. destruct op; unfold step.
  - unfold tick. eff. exact I.
  - destruct (sweep_app P s) as (_ & E2 & E3 & _).
    pose proof (settle_all_keeps P (price (app s)) (orders (app s)) s)
      as (K1 & K2 & _).
    rewrite E2, E3, K1, K2. exact I.
  - unfold placeOrder. eff. exact I.
  - destruct (connected (app s)) eqn:C.
    + rewrite (toggle_connected s C). simpl. discriminate.
    + destruct (String.eqb_spec (apiToken (app s)) ""%string) as [T|T].
      * rewrite (toggle_no_token s C T). simpl. discriminate.
      * rewrite (toggle_with_token s C T). simpl. intros _. exact T.
  - unfold promptToken. destruct answer as [token|]; [|eff; exact I].
    destruct (String.eqb_spec token ""%string) as [T|T]; eff; [exact I|].
    intros _. exact T.
  - unfold deposit. eff. exact I.
  - unfold resetAccount. eff. exact I.
  - unfold runIndicator. eff. exact I.
Qed.

Lemma run_token (ops : list Op) (s : Sim) :
  (connected (app s) = true -> apiToken (app s) <> ""%string) ->
  connected (app (run P ops s)) = true -> apiToken (app (run P ops s)) <> ""%string.
Proof.
  revert s. induction ops as [|op ops IH]; intros s I; [exact I|].
  simpl. apply IH. now apply step_token.
Qed.

End Toggle.

(** * The claims *)


(** ** placeOrder *)




(** Two draws that print alike give two orders the same id. *)
Example placeOrder_ids_can_collide :
  map o_id (orders (app (run Demo.platform
                             [OpPlaceOrder Buy (1 # 1); OpPlaceOrder Sell (2 # 1)]
                             Demo.booted)))
  = ["r000000"; "r000000"]%string.
Proof. vm_compute. reflexivity. Qed.

(** ** The order life cycle *)

(** C2.  In every state the app reaches, [pnl] and [filledAt] are present
    exactly on the filled orders; across any sequence of timer callbacks
    (sweeps, with price ticks in between) every order keeps its place and is
    either untouched or went from pending to filled once; and the mapped
    function returns a filled order as it is, without a random draw and
    without touching balance or feed. *)
Theorem order_lifecycle (P : Platform) (w : World) (ops : list Op) (ts : list Timer) :
  Forall order_wf (orders (app (run P ops (boot P w))))
  /\ Forall2 evolves (orders (app (run P ops (boot P w))))
                     (orders (app (run P (map timer_op ts) (run P ops (boot P w)))))
  /\ (forall (p : Q) (o : Order) (s : Sim),
         o_status o = Filled -> settle P p o s = (o, s)).
Proof.
  split; [|split].
  - apply run_wf. destruct (boot_app P w) as (_ & _ & _ & _ & _ & E & _).
    rewrite E. constructor.
  - apply timers_evolve.
  - intros p o s St. unfold settle. now rewrite St.
Qed.

Lemma order_lifecycle_witness :
  settle Demo.platform (2 # 1) Demo.filled_order Demo.with_order
  = (Demo.filled_order, Demo.with_order).
Proof.
  apply (order_lifecycle Demo.platform Demo.world_high [] []). reflexivity.
Defined.

(** The order of [Demo.with_order] is filled by the first sweep and is the
    same after two further sweeps at other prices. *)
Example filled_order_is_final :
  orders (app (run Demo.platform [OpSweep] Demo.with_order)) = [Demo.filled_order]
  /\ orders (app (run Demo.platform [OpSweep; OpTick; OpSweep; OpTick; OpSweep]
                      Demo.with_order)) = [Demo.filled_order]
  /\ balance (app (run Demo.platform [OpSweep; OpTick; OpSweep; OpTick; OpSweep]
                       Demo.with_order)) = 100004 # 100.
Proof. vm_compute. repeat split. Qed.

(** ** The pnl of a fill *)



(** ** Capacities *)

(** C4.  After the first render and any sequence of callbacks the order
    list and the feed hold at most 50 entries and the candles at most 200.
    An insertion into a full array drops the oldest entry: the last one of
    the newest-first feed and order list, the first one of the candles. *)
Theorem array_capacities (P : Platform) (w : World) (ops : list Op) :
  bounded (app (run P ops (boot P w)))
  /\ (forall (e : FeedEvent) (f : list FeedEvent),
         List.length f = 50%nat -> publish e f = removelast (e :: f))
  /\ (forall (side : Side) (size : Q) (s : Sim),
         List.length (orders (app s)) = 50%nat ->
         orders (app (exec (placeOrder P side size) s))
         = removelast (new_order P side size s :: orders (app s)))
  /\ (forall s : Sim,
         List.length (candles (app s)) = 200%nat ->
         candles (app (exec (tick P) s)) = tl (candles (app s)) ++ [new_candle P s]).
Proof.
  repeat split.
  - apply run_bounded. destruct (boot_app P w) as (_ & _ & _ & _ & C & O & F).
    unfold bounded. rewrite C, O, F. simpl. lia.
  - apply run_bounded. destruct (boot_app P w) as (_ & _ & _ & _ & C & O & F).
    unfold bounded. rewrite C, O, F. simpl. lia.
  - apply run_bounded. destruct (boot_app P w) as (_ & _ & _ & _ & C & O & F).
    unfold bounded. rewrite C, O, F. simpl. lia.
  - intros e f L. unfold publish. now apply slice_front_evicts.
  - intros side size s L. unfold placeOrder, new_order. eff.
    now apply slice_front_evicts.
  - intros s L. unfold tick, new_candle. eff.
    apply slice_back_evicts; [exact L | lia].
Qed.

Lemma array_capacities_witness :
  orders (app (exec (placeOrder Demo.platform Buy (1 # 1)) Demo.at_capacity))
  = removelast (new_order Demo.platform Buy (1 # 1) Demo.at_capacity
                :: orders (app Demo.at_capacity))
  /\ candles (app (exec (tick Demo.platform) Demo.at_capacity))
     = tl (candles (app Demo.at_capacity)) ++ [new_candle Demo.platform Demo.at_capacity]
  /\ publish (mkFeed FSystem "Indicator triggered (mock)" "22:15:00")
             (feed (app Demo.at_capacity))
     = removelast (mkFeed FSystem "Indicator triggered (mock)" "22:15:00"
                   :: feed (app Demo.at_capacity)).
Proof.
  pose proof (array_capacities Demo.platform Demo.world_high []) as (_ & F & O & C).
  split; [|split].
  - apply O. vm_compute. reflexivity.
  - apply C. vm_compute. reflexivity.
  - apply F. vm_compute. reflexivity.
Defined.

(** ** The ledger *)



(** ** Connecting *)



(** ** Reset *)

(** C7.  From every state, the reset button sets the balance to 1000 and
    empties the order list. *)
Theorem resetAccount_spec (P : Platform) (s : Sim) :
  balance (app (exec (resetAccount P) s)) = 1000 # 1
  /\ orders (app (exec (resetAccount P) s)) = [].
Proof. unfold resetAccount. eff. auto. Qed.

(** ** The price sequence *)




(** ** Disconnecting *)




(** ** The frame of a sweep *)

(** C10.  A sweep keeps the number of orders, keeps the id, side, size,
    entry price and placement time of every order, and leaves the token,
    the connection flag, the price and the candles as they are. *)
Theorem sweep_frame (P : Platform) (s : Sim) :
  List.length (orders (app (exec (sweep P) s))) = List.length (orders (app s))
  /\ Forall2 same_frame (orders (app s)) (orders (app (exec (sweep P) s)))
  /\ apiToken (app (exec (sweep P) s)) = apiToken (app s)
  /\ connected (app (exec (sweep P) s)) = connected (app s)
  /\ price (app (exec (sweep P) s)) = price (app s)
  /\ candles (app (exec (sweep P) s)) = candles (app s).
Proof.
  destruct (sweep_app P s) as (_ & E2 & E3 & _ & E5 & E6 & _).
  pose proof (settle_all_keeps P (price (app s)) (orders (app s)) s)
    as (K1 & K2 & K3 & K4 & _).
  repeat split; try congruence.
  - apply sweep_orders_length.
  - eapply Forall2_impl; [|apply sweep_orders].
    intros o o' [->|(_ & _ & F & _)]; [|exact F].
    unfold same_frame. auto.
Qed.

(** * Further properties of the callbacks *)

(** ** What a sweep reads from the oracle *)

Section SweepReads.
Context (P : Platform).

Lemma count_pending_cons (o : Order) (os : list Order) :
  count_pending (o :: os) = ((if is_pending o then 1 else 0) + count_pending os)%nat.
Proof. unfold count_pending. simpl. now destruct (is_pending o). Qed.

Lemma settle_world (p : Q) (o : Order) (s : Sim) :
  random_src (world (snd (settle P p o s))) = random_src (world s)
  /\ clock_src (world (snd (settle P p o s))) = clock_src (world s)
  /\ random_n (world (snd (settle P p o s)))
     = (random_n (world s) + (if is_pending o then 1 else 0))%nat
  /\ (clock_n (world (snd (settle P p o s)))
      + 2 * (if is_pending (fst (settle P p o s)) then 1 else 0))%nat
     = (clock_n (world s) + 2 * (if is_pending o then 1 else 0))%nat.
Proof.
  unfold settle, is_pending. destruct (o_status o) eqn:St.
  - eff. destruct (Qle_bool _ _); simpl; rewrite ?St; repeat split; try reflexivity; lia.
  - simpl. rewrite St. repeat split; try reflexivity; lia.
Qed.

Lemma settle_all_world (p : Q) (os : list Order) (s : Sim) :
  random_src (world (snd (mapM (settle P p) os s))) = random_src (world s)
  /\ clock_src (world (snd (mapM (settle P p) os s))) = clock_src (world s)
  /\ random_n (world (snd (mapM (settle P p) os s)))
     = (random_n (world s) + count_pending os)%nat
  /\ (clock_n (world (snd (mapM (settle P p) os s)))
      + 2 * count_pending (fst (mapM (settle P p) os s)))%nat
     = (clock_n (world s) + 2 * count_pending os)%nat.
Proof.
  revert s. induction os as [|o os IH]; intros s.
  - simpl. unfold count_pending. simpl. repeat split; try reflexivity; lia.
  - rewrite mapM_cons. cbn [fst snd]. rewrite !count_pending_cons.
    destruct (IH (snd (settle P p o s))) as (I1 & I2 & I3 & I4).
    destruct (settle_world p o s) as (S1 & S2 & S3 & S4).
    rewrite I1, I2, I3, S1, S2, S3. repeat split; try reflexivity; lia.
Qed.

Lemma sweep_world (s : Sim) :
  world (exec (sweep P) s)
  = world (snd (mapM (settle P (price (app s))) (orders (app s)) s)).
Proof.
  unfold sweep, exec, bind, gets. cbn [fst snd].
  destruct (orders (app s)) as [|o os] eqn:Os.
  - reflexivity.
  - destruct (mapM (settle P (price (app s))) (o :: os) s) as [u s1]. reflexivity.
Qed.

(** A list without pending orders passes through unchanged. *)
Lemma settle_all_idle (p : Q) (os : list Order) (s : Sim) :
  count_pending os = 0%nat -> mapM (settle P p) os s = (os, s).
Proof.
  revert s. induction os as [|o os IH]; intros s H; [reflexivity|].
  rewrite count_pending_cons in H.
  assert (St : o_status o = Filled).
  { unfold is_pending in H. destruct (o_status o); [simpl in H; lia | reflexivity]. }
  rewrite mapM_cons.
  assert (E : settle P p o s = (o, s)) by (unfold settle; now rewrite St).
  rewrite E. cbn [fst snd]. rewrite IH; [reflexivity|].
  unfold is_pending in H. rewrite St in H. simpl in H. exact H.
Qed.

End SweepReads.

Section SweepDraws.
Context (P : Platform).

Lemma settle_all_low (p : Q) (os : list Order) (s : Sim) :
  (forall i, random_src (world s) i <= 1 # 2) ->
  fst (mapM (settle P p) os s) = os /\ app (snd (mapM (settle P p) os s)) = app s.
Proof.
  revert s. induction os as [|o os IH]; intros s H; [split; reflexivity|].
  rewrite mapM_cons. cbn [fst snd].
  assert (E : fst (settle P p o s) = o /\ app (snd (settle P p o s)) = app s).
  { unfold settle. destruct (o_status o); [|split; reflexivity].
    eff. assert (L : Qle_bool (random_src (world s) (random_n (world s))) (5 # 10) = true).
    { apply Qle_bool_iff. specialize (H (random_n (world s))). lra. }
    rewrite L. split; reflexivity. }
  destruct E as [E1 E2].
  destruct (IH (snd (settle P p o s))) as [I1 I2].
  { intros i. destruct (settle_world P p o s) as (R & _). rewrite R. apply H. }
  rewrite E1, I1, I2, E2. split; reflexivity.
Qed.

Lemma settle_all_high (p : Q) (os : list Order) (s : Sim) :
  (forall i, 1 # 2 < random_src (world s) i) ->
  count_pending (fst (mapM (settle P p) os s)) = 0%nat.
Proof.
  revert s. induction os as [|o os IH]; intros s H; [reflexivity|].
  rewrite mapM_cons. cbn [fst snd]. rewrite count_pending_cons.
  rewrite IH.
  - assert (E : is_pending (fst (settle P p o s)) = false); [|now rewrite E].
    unfold settle, is_pending. destruct (o_status o) eqn:St; [|simpl; now rewrite St].
    eff.
    assert (L : Qle_bool (random_src (world s) (random_n (world s))) (5 # 10) = false).
    { destruct (Qle_bool _ _) eqn:B; [|reflexivity].
      apply Qle_bool_iff in B. specialize (H (random_n (world s))). lra. }
    rewrite L. reflexivity.
  - intros i. destruct (settle_world P p o s) as (R & _). rewrite R. apply H.
Qed.

End SweepDraws.

(** X1.  A sweep asks for exactly one random number per pending order and
    reads the clock twice per order it fills; the oracle itself is not
    changed.  With no pending order the sweep is the identity on the whole
    state. *)
Theorem sweep_oracle_reads (P : Platform) (s : Sim) :
  random_src (world (exec (sweep P) s)) = random_src (world s)
  /\ clock_src (world (exec (sweep P) s)) = clock_src (world s)
  /\ random_n (world (exec (sweep P) s))
     = (random_n (world s) + count_pending (orders (app s)))%nat
  /\ (clock_n (world (exec (sweep P) s))
      + 2 * count_pending (orders (app (exec (sweep P) s))))%nat
     = (clock_n (world s) + 2 * count_pending (orders (app s)))%nat
  /\ (count_pending (orders (app s)) = 0%nat -> exec (sweep P) s = s).
Proof.
  destruct (sweep_app P s) as (E & _).
  destruct (settle_all_world P (price (app s)) (orders (app s)) s) as (W1 & W2 & W3 & W4).
  rewrite sweep_world, E. repeat split; try assumption.
  intros Z. unfold sweep, exec, bind, gets. cbn [fst snd].
  destruct (orders (app s)) as [|o os] eqn:Os; [reflexivity|].
  rewrite (settle_all_idle P _ _ s Z). unfold setOrders, modify. cbn [snd].
  destruct s as [w a]. destruct a. simpl in Os. subst. reflexivity.
Qed.

Lemma sweep_oracle_reads_witness : exec (sweep Demo.platform) demo_all_filled = demo_all_filled.
Proof.
  apply (sweep_oracle_reads Demo.platform demo_all_filled). vm_compute. reflexivity.
Defined.

(** X2.  An order is filled exactly when its draw exceeds 0.5: a sweep whose
    draws are all at most 0.5 leaves the application state as it is, and a
    sweep whose draws all exceed 0.5 leaves no order pending. *)
Theorem sweep_threshold (P : Platform) (s : Sim) :
  ((forall i, random_src (world s) i <= 1 # 2) -> app (exec (sweep P) s) = app s)
  /\ ((forall i, 1 # 2 < random_src (world s) i) ->
      count_pending (orders (app (exec (sweep P) s))) = 0%nat).
Proof.
  destruct (sweep_app P s) as (E1 & E2 & E3 & E4 & E5 & E6 & E7).
  split; intros H.
  - destruct (settle_all_low P (price (app s)) (orders (app s)) s H) as [L1 L2].
    rewrite L1 in E1. rewrite L2 in E2, E3, E4, E5, E6, E7.
    destruct (app (exec (sweep P) s)), (app s). simpl in *. congruence.
  - rewrite E1. now apply settle_all_high.
Qed.

Lemma sweep_threshold_witness :
  app (exec (sweep Demo.platform) demo_pending_low) = app demo_pending_low
  /\ count_pending (orders (app (exec (sweep Demo.platform) Demo.with_order))) = 0%nat.
Proof.
  split.
  - apply (proj1 (sweep_threshold Demo.platform demo_pending_low)).
    intros i. destruct i; vm_compute; discriminate.
  - apply (proj2 (sweep_threshold Demo.platform Demo.with_order)).
    intros i. destruct i; vm_compute; reflexivity.
Defined.

(** ** The mount effect *)

Section Mount.
Context (P : Platform).




Lemma boot_candles (w : World) :
  exists s1 : Sim,
    random_src (world s1) = random_src w
    /\ candles (app (boot P w))
       = fst (mapM (initial_candle P (clock_src w (clock_n w))) (seq 0 80) s1)
    /\ price (app (boot P w))
       = c_price (nth 79 (candles (app (boot P w))) {| c_time := ""; c_price := 0 |}).
Proof.
  exists (snd (date_now {| world := w; app := initial_app |})).
  split; [reflexivity|].
  unfold boot, mount. pose proof (length_seq 80 0) as L80.
  generalize dependent (seq 0 80). intros l L80.
  rewrite !exec_bind.
  set (s1 := snd (date_now _)).
  change (fst (date_now {| world := w; app := initial_app |}))
    with (clock_src w (clock_n w)).
  pose proof (mapM_length (initial_candle P (clock_src w (clock_n w))) l s1) as L.
  destruct (mapM (initial_candle P (clock_src w (clock_n w))) l s1) as [initial s2].
  cbn [fst snd] in L |- *.
  unfold exec, setCandles, setPrice, modify.
  cbn [fst snd app apiToken connected balance price candles orders feed].
  rewrite L, L80. split; reflexivity.
Qed.

End Mount.



(** ** The balance *)

Section Balance.
Context (P : Platform).






End Balance.



Section Buttons.
Context (P : Platform).


Lemma resetAccount_app_fields (s : Sim) :
  balance (app (exec (resetAccount P) s)) = 1000 # 1
  /\ orders (app (exec (resetAccount P) s)) = [].
Proof. unfold resetAccount. eff. split; reflexivity. Qed.

Lemma sweep_no_orders (s : Sim) : orders (app s) = [] -> exec (sweep P) s = s.
Proof.
  intros E. unfold sweep, exec, bind, gets. cbn [fst snd]. now rewrite E.
Qed.

Lemma timers_no_orders (ts : list Timer) (s : Sim) :
  orders (app s) = [] ->
  orders (app (run P (map timer_op ts) s)) = []
  /\ balance (app (run P (map timer_op ts) s)) = balance (app s).
Proof.
  revert s. induction ts as [|t ts IH]; intros s E; [now split|].
  cbn [map run]. destruct t; cbn [timer_op step].
  - destruct (tick_keeps P s) as [E1 E2].
    destruct (IH (exec (tick P) s)) as [I1 I2]; [congruence|].
    split; congruence.
  - rewrite (sweep_no_orders s E). now apply IH.
Qed.

Lemma step_token_kept (op : Op) (s : Sim) :
  apiToken (app s) <> ""%string -> apiToken (app (exec (step P op) s)) <> ""%string.
Proof.
  intros T. destruct op; unfold step.
  - unfold tick. eff. exact T.
  - destruct (sweep_app P s) as (_ & E2 & _).
    pose proof (settle_all_keeps P (price (app s)) (orders (app s)) s) as (K1 & _).
    now rewrite E2, K1.
  - unfold placeOrder. eff. exact T.
  - unfold toggleConnect. eff. destruct (connected (app s)); eff; [exact T|].
    destruct (String.eqb (apiToken (app s)) ""%string); eff; exact T.
  - unfold promptToken. destruct answer as [token|]; [|eff; exact T].
    destruct (String.eqb_spec token ""%string) as [E|E]; eff; assumption.
  - unfold deposit. eff. exact T.
  - unfold resetAccount. eff. exact T.
  - unfold runIndicator. eff. exact T.
Qed.

End Buttons.


(** X7.  After a reset the sweeps have nothing to settle: whatever orders
    were pending are gone for good, and any sequence of sweeps and ticks
    that follows leaves the balance at 1000 and the order list empty. *)
Theorem reset_then_timers (P : Platform) (ts : list Timer) (s : Sim) :
  balance (app (run P (OpReset :: map timer_op ts) s)) = 1000 # 1
  /\ orders (app (run P (OpReset :: map timer_op ts) s)) = [].
Proof.
  cbn [run step].
  destruct (resetAccount_app_fields P s) as [B O].
  destruct (timers_no_orders P ts _ O) as [T1 T2].
  split; [now rewrite T2 | exact T1].
Qed.

(** ** The token *)

(** X8.  In every state the app reaches, being connected implies that a
    token is configured: connecting needs one, and no callback removes or
    empties it. *)
Theorem connected_has_token (P : Platform) (w : World) (ops : list Op) :
  connected (app (run P ops (boot P w))) = true ->
  apiToken (app (run P ops (boot P w))) <> ""%string.
Proof.
  apply run_token. destruct (boot_app P w) as (_ & B & _). rewrite B.
  intros F. discriminate F.
Qed.

Lemma connected_has_token_witness : apiToken (app Demo.online) <> ""%string.
Proof.
  apply (connected_has_token Demo.platform Demo.world_high
           [OpPromptToken (Some "demo-token"%string); OpToggleConnect]).
  vm_compute. reflexivity.
Defined.

(** X9.  A cancelled prompt and an empty answer change nothing at all, and
    a token, once set, is never emptied again by any sequence of
    callbacks. *)
Theorem token_is_kept (P : Platform) (ops : list Op) (s : Sim) :
  exec (promptToken None) s = s
  /\ exec (promptToken (Some ""%string)) s = s
  /\ (apiToken (app s) <> ""%string -> apiToken (app (run P ops s)) <> ""%string).
Proof.
  split; [reflexivity|]. split; [reflexivity|].
  revert s. induction ops as [|op ops IH]; intros s T; [exact T|].
  simpl. apply IH. now apply step_token_kept.
Qed.

Lemma token_is_kept_witness :
  apiToken (app (run Demo.platform
                     [OpToggleConnect; OpPromptToken (Some ""%string); OpReset;
                      OpToggleConnect; OpPromptToken None]
                     Demo.with_token)) <> ""%string.
Proof.
  apply (token_is_kept Demo.platform). vm_compute. discriminate.
Defined.

(** ** The candles *)

Section Candles.
Context (P : Platform).

Lemma slice_back_snoc {A} (n : nat) (l : list A) (x : A) :
  (0 < n)%nat -> slice_back n (l ++ [x]) = slice_back (n - 1) l ++ [x].
Proof.
  intros H. unfold slice_back. rewrite length_app. simpl.
  rewrite skipn_app.
  replace (List.length l + 1 - n)%nat with (List.length l - (n - 1))%nat by lia.
  replace (List.length l - (n - 1) - List.length l)%nat with 0%nat by lia.
  reflexivity.
Qed.

Lemma step_candles (op : Op) (s : Sim) :
  is_tick op = false ->
  candles (app (exec (step P op) s)) = candles (app s)
  /\ price (app (exec (step P op) s)) = price (app s).
Proof.
  intros H. destruct op; try discriminate H; unfold step.
  - destruct (sweep_app P s) as (_ & _ & _ & _ & E5 & E6 & _).
    pose proof (settle_all_keeps P (price (app s)) (orders (app s)) s)
      as (_ & _ & K3 & K4 & _).
    split; congruence.
  - unfold placeOrder. eff. split; reflexivity.
  - unfold toggleConnect. eff. destruct (connected (app s)); eff; [split; reflexivity|].
    destruct (String.eqb (apiToken (app s)) ""%string); eff; split; reflexivity.
  - unfold promptToken.
    destruct answer as [token|]; [destruct (String.eqb token ""%string)|]; eff;
      split; reflexivity.
  - unfold deposit. eff. split; reflexivity.
  - unfold resetAccount. eff. split; reflexivity.
  - unfold runIndicator. eff. split; reflexivity.
Qed.

Lemma tick_candles (s : Sim) :
  candles (app (exec (tick P) s))
  = slice_back 199 (candles (app s)) ++ [new_candle P s]
  /\ price (app (exec (tick P) s)) = c_price (new_candle P s).
Proof.
  unfold tick, new_candle. eff. split; [|reflexivity].
  apply (slice_back_snoc 200). lia.
Qed.

Lemma run_last_candle (ops : list Op) (s : Sim) (d : Candle) :
  c_price (last (candles (app s)) d) = price (app s) ->
  candles (app s) <> [] ->
  c_price (last (candles (app (run P ops s))) d) = price (app (run P ops s))
  /\ candles (app (run P ops s)) <> [].
Proof.
  revert s. induction ops as [|op ops IH]; intros s L N; [now split|].
  simpl. apply IH.
  - destruct (is_tick op) eqn:T.
    + destruct op; try discriminate T. cbn [step].
      destruct (tick_candles s) as [E1 E2]. rewrite E1, E2. now rewrite last_last.
    + destruct (step_candles op s T) as [E1 E2]. now rewrite E1, E2.
  - destruct (is_tick op) eqn:T.
    + destruct op; try discriminate T. cbn [step].
      destruct (tick_candles s) as [E1 _]. rewrite E1.
      intros C. now apply app_eq_nil in C as [_ C].
    + destruct (step_candles op s T) as [E1 _]. now rewrite E1.
Qed.

Lemma run_candles_length (ops : list Op) (s : Sim) :
  (List.length (candles (app s)) <= 200)%nat ->
  List.length (candles (app (run P ops s)))
  = Nat.min 200 (List.length (candles (app s)) + count_ticks ops).
Proof.
  revert s. induction ops as [|op ops IH]; intros s B.
  - cbn [run]. unfold count_ticks. cbn [filter Datatypes.length]. lia.
  - cbn [run]. unfold count_ticks. cbn [filter]. fold (count_ticks ops).
    destruct (is_tick op) eqn:T.
    + destruct op; try discriminate T. cbn [step].
      destruct (tick_candles s) as [E1 _].
      assert (L : List.length (candles (app (exec (tick P) s)))
                  = Nat.min 200 (List.length (candles (app s)) + 1)).
      { rewrite E1, length_app. unfold slice_back. rewrite length_skipn.
        cbn [Datatypes.length]. lia. }
      rewrite IH by lia. rewrite L. unfold count_ticks. cbn [Datatypes.length]. lia.
    + destruct (step_candles op s T) as [E1 _]. rewrite IH by (rewrite E1; exact B).
      rewrite E1. reflexivity.
Qed.

Lemma nth_pred_last {A} (l : list A) (d : A) (n : nat) :
  List.length l = S n -> nth n l d = last l d.
Proof.
  intros L. destruct (exists_last (l := l)) as (l' & c & E).
  { intros C. rewrite C in L. discriminate L. }
  subst l. rewrite last_last. rewrite length_app in L. cbn [Datatypes.length] in L.
  rewrite app_nth2 by lia. replace (n - List.length l')%nat with 0%nat by lia.
  reflexivity.
Qed.

Lemma mount_candles_last (w : World) :
  c_price (last (candles (app (boot P w))) {| c_time := ""; c_price := 0 |})
  = price (app (boot P w))
  /\ candles (app (boot P w)) <> [].
Proof.
  destruct (boot_candles P w) as (_ & _ & _ & Pr).
  destruct (boot_app P w) as (_ & _ & _ & _ & L & _).
  generalize dependent (app (boot P w)). intros a Pr L.
  split.
  - rewrite Pr. rewrite (nth_pred_last _ _ 79 L). reflexivity.
  - intros C. rewrite C in L. discriminate L.
Qed.

End Candles.

(** X10.  In every state the app reaches, the last candle of the chart
    carries the current price. *)
Theorem last_candle_is_price (P : Platform) (w : World) (ops : list Op) :
  c_price (last (candles (app (run P ops (boot P w)))) {| c_time := ""; c_price := 0 |})
  = price (app (run P ops (boot P w))).
Proof.
  apply run_last_candle.
  - destruct (mount_candles_last P w) as [E _]. exact E.
  - destruct (mount_candles_last P w) as [_ N]. exact N.
Qed.

(** X11.  The chart holds 80 candles after the mount and gains one per
    price tick until it holds 200; no other callback changes it. *)
Theorem candles_count (P : Platform) (w : World) (ops : list Op) :
  List.length (candles (app (run P ops (boot P w))))
  = Nat.min 200 (80 + count_ticks ops).
Proof.
  destruct (boot_app P w) as (_ & _ & _ & _ & L & _).
  rewrite run_candles_length by (rewrite L; lia). now rewrite L.
Qed.

(** ** Submitting several orders *)

Section Placing.
Context (P : Platform).

Lemma firstn_app_firstn {A} (n k : nat) (a b : list A) :
  (n <= k)%nat -> firstn n (a ++ firstn k b) = firstn n (a ++ b).
Proof.
  revert n k. induction a as [|x a IH]; intros n k H.
  - simpl. rewrite firstn_firstn. now rewrite Nat.min_l.
  - destruct n as [|n]; [reflexivity|]. simpl. f_equal. apply IH. lia.
Qed.

Lemma placeOrder_app (side : Side) (size : Q) (s : Sim) :
  orders (app (exec (placeOrder P side size) s))
  = slice_front 50 (new_order P side size s :: orders (app s))
  /\ price (app (exec (placeOrder P side size) s)) = price (app s).
Proof. unfold placeOrder, new_order. eff. split; reflexivity. Qed.

Lemma place_all_spec (l : list (Side * Q)) (s : Sim) :
  (List.length (orders (app s)) <= 50)%nat ->
  exists news : list Order,
    map (fun o => (o_side o, o_size o)) news = rev l
    /\ Forall (fun o => o_status o = Pending /\ o_pnl o = None /\ o_filledAt o = None
                        /\ o_price o = price (app s)) news
    /\ orders (app (run P (place_all l) s)) = slice_front 50 (news ++ orders (app s))
    /\ price (app (run P (place_all l) s)) = price (app s).
Proof.
  revert s. induction l as [|[sd sz] l IH]; intros s B.
  - exists []. cbn [place_all map rev run app]. repeat split; try constructor.
    unfold slice_front. now rewrite firstn_all2.
  - destruct (placeOrder_app sd sz s) as [O1 P1].
    destruct (IH (exec (placeOrder P sd sz) s)) as (news & M & F & O & Pr).
    { rewrite O1. apply slice_front_length. }
    exists (news ++ [new_order P sd sz s]).
    cbn [place_all map run step fst snd]. fold (place_all l).
    split; [|split; [|split]].
    + rewrite map_app, M. reflexivity.
    + apply Forall_app. split.
      * eapply Forall_impl; [|exact F]. intros o (A1 & A2 & A3 & A4).
        repeat split; congruence.
      * constructor; [|constructor]. unfold new_order. simpl. auto.
    + rewrite O, O1. unfold slice_front. rewrite firstn_app_firstn by lia.
      now rewrite <- app_assoc.
    + congruence.
Qed.

End Placing.

(** X12.  Submitting the orders [l] one after the other to a list within
    capacity puts them in front of the list, last submitted first, all
    pending and all at the unchanged current price, and keeps the first 50
    of the result.  So after 50 or more submissions nothing of the earlier
    list is left: every order in the list is one of the new pending ones,
    and an older order that was still pending is dropped without ever being
    settled. *)
Theorem place_all_orders (P : Platform) (l : list (Side * Q)) (s : Sim) :
  (List.length (orders (app s)) <= 50)%nat ->
  (exists news : list Order,
      map (fun o => (o_side o, o_size o)) news = rev l
      /\ Forall (fun o => o_status o = Pending /\ o_pnl o = None /\ o_filledAt o = None
                          /\ o_price o = price (app s)) news
      /\ orders (app (run P (place_all l) s)) = slice_front 50 (news ++ orders (app s)))
  /\ ((50 <= List.length l)%nat ->
      map (fun o => (o_side o, o_size o)) (orders (app (run P (place_all l) s)))
      = slice_front 50 (rev l)
      /\ Forall (fun o => o_status o = Pending) (orders (app (run P (place_all l) s)))).
Proof.
  intros B. destruct (place_all_spec P l s B) as (news & M & F & O & _).
  split; [exists news; auto|].
  intros L.
  assert (N : (50 <= List.length news)%nat).
  { rewrite <- (length_map (fun o => (o_side o, o_size o))), M, length_rev. exact L. }
  assert (E : orders (app (run P (place_all l) s)) = slice_front 50 news).
  { rewrite O. unfold slice_front. rewrite firstn_app.
    replace (50 - List.length news)%nat with 0%nat by lia.
    simpl. apply app_nil_r. }
  rewrite E. split.
  - unfold slice_front. rewrite <- firstn_map. now rewrite M.
  - apply Forall_slice_front. eapply Forall_impl; [|exact F]. now intros o (A & _).
Qed.

Lemma place_all_orders_witness :
  Forall (fun o => o_status o = Pending)
         (orders (app (run Demo.platform (place_all (repeat (Buy, 2 # 1) 50))
                           demo_all_filled))).
Proof.
  apply (place_all_orders Demo.platform (repeat (Buy, 2 # 1) 50) demo_all_filled).
  - vm_compute. lia.
  - vm_compute. lia.
Defined.

(** ** The trade events of a sweep *)

Section SweepFeed.
Context (P : Platform).

Lemma settle_all_feed (p : Q) (os : list Order) (s : Sim) :
  exists evs : list FeedEvent,
    Forall (fun e => f_type e = FTrade) evs
    /\ (List.length evs + count_pending (fst (mapM (settle P p) os s)))%nat
       = count_pending os
    /\ feed (app (snd (mapM (settle P p) os s))) = fold_right publish (feed (app s)) evs.
Proof.
  revert s. induction os as [|o os IH]; intros s.
  - exists []. simpl. repeat split. constructor.
  - rewrite mapM_cons. cbn [fst snd]. rewrite !count_pending_cons.
    destruct (IH (snd (settle P p o s))) as (evs & F & N & E).
    destruct (settle_cases P p o s) as [[St X]|[(St & E1 & E2)|(St & t1 & t2 & E1 & E2)]].
    + exists evs. rewrite X in *. cbn [fst snd] in *. repeat split; try assumption. lia.
    + exists evs. rewrite E1, E, E2. repeat split; try assumption. lia.
    + exists (evs ++ [{| f_type := FTrade;
                         f_text := "Order " ++ o_id o ++ " filled, P/L "
                                   ++ numberToString P (profit_of p o);
                         f_time := t1 |}]).
      rewrite E1, E, E2. cbn [feed]. split; [|split].
      * apply Forall_app. split; [exact F|]. constructor; [reflexivity | constructor].
      * rewrite length_app. cbn [Datatypes.length].
        assert (I1 : is_pending (mark_filled o t2 (profit_of p o)) = false) by reflexivity.
        assert (I2 : is_pending o = true) by (unfold is_pending; now rewrite St).
        rewrite I1, I2. lia.
      * now rewrite fold_right_app.
Qed.

End SweepFeed.

(** X13.  A sweep publishes one [trade] event per order it fills and no
    other event: the feed after the sweep is the feed before it with these
    events published one by one, and their number is the drop in the number
    of pending orders. *)
Theorem sweep_trade_events (P : Platform) (s : Sim) :
  exists evs : list FeedEvent,
    Forall (fun e => f_type e = FTrade) evs
    /\ (List.length evs + count_pending (orders (app (exec (sweep P) s))))%nat
       = count_pending (orders (app s))
    /\ feed (app (exec (sweep P) s)) = fold_right publish (feed (app s)) evs.
Proof.
  destruct (sweep_app P s) as (E1 & _ & _ & _ & _ & _ & E7).
  rewrite E1, E7. apply settle_all_feed.
Qed.

(** ** The profit of a fill *)





(** ** Order ids *)

Lemma substring_length_le (n m : nat) (s : string) :
  (String.length (substring n m s) <= m)%nat.
Proof.
  revert n m. induction s as [|c s IH]; intros n m.
  - destruct n, m; simpl; lia.
  - destruct n as [|n].
    + destruct m as [|m]; simpl; [lia|]. specialize (IH 0%nat m). lia.
    + simpl. apply IH.
Qed.

Section Ids.
Context (P : Platform).

Lemma step_id_length (op : Op) (s : Sim) :
  Forall (fun o => (String.length (o_id o) <= 7)%nat) (orders (app s)) ->
  Forall (fun o => (String.length (o_id o) <= 7)%nat) (orders (app (exec (step P op) s))).
Proof.
  intros F. destruct op; unfold step.
  - unfold tick. eff. exact F.
  - pose proof (sweep_orders P s) as S.
    revert F S. generalize (orders (app s)) (orders (app (exec (sweep P) s))).
    intros l l' F S. induction S as [|o o' l l' H S IH]; [constructor|].
    inversion F; subst. constructor; [|now apply IH].
    destruct H as [->|(_ & _ & (I & _) & _)]; [assumption | now rewrite I].
  - unfold placeOrder. eff. apply Forall_slice_front. constructor; [|exact F].
    cbn [o_id]. unfold str_slice. apply substring_length_le.
  - unfold toggleConnect. eff. destruct (connected (app s)); eff; [exact F|].
    destruct (String.eqb (apiToken (app s)) ""%string); eff; exact F.
  - unfold promptToken.
    destruct answer as [token|]; [destruct (String.eqb token ""%string)|]; eff; exact F.
  - unfold deposit. eff. exact F.
  - unfold resetAccount. eff. constructor.
  - unfold runIndicator. eff. exact F.
Qed.

End Ids.

(** X16.  Whatever the platform prints for a random number in base 36, an
    order id is at most seven characters long, in every state the app
    reaches. *)
Theorem order_ids_short (P : Platform) (w : World) (ops : list Op) :
  Forall (fun o => (String.length (o_id o) <= 7)%nat)
         (orders (app (run P ops (boot P w)))).
Proof.
  assert (G : forall s, Forall (fun o => (String.length (o_id o) <= 7)%nat) (orders (app s)) ->
                        Forall (fun o => (String.length (o_id o) <= 7)%nat)
                               (orders (app (run P ops s)))).
  { induction ops as [|op ops IH]; intros s F; [exact F|].
    simpl. apply IH. now apply step_id_length. }
  apply G. destruct (boot_app P w) as (_ & _ & _ & _ & _ & E & _).
  rewrite E. constructor.
Qed.

(** ** How far the price can drift *)

Section Drift.
Context (P : Platform).







End Drift.



(** ** The chat *)

Lemma sendChats_spec (texts : list string) (w : World) (m : list ChatMessage) :
  exists news : list ChatMessage,
    fst (sendChats texts w m) = news ++ m
    /\ map m_text news = rev texts
    /\ map m_id news = rev (map (clock_src w) (seq (clock_n w) (List.length texts)))
    /\ Forall (fun c => m_user c = "You"%string) news
    /\ clock_n (snd (sendChats texts w m)) = (clock_n w + List.length texts)%nat
    /\ clock_src (snd (sendChats texts w m)) = clock_src w.
Proof.
  revert w m. induction texts as [|t texts IH]; intros w m.
  - exists []. simpl. repeat split; try constructor. lia.
  - set (w1 := {| random_src := random_src w; random_n := random_n w;
                  clock_src := clock_src w; clock_n := S (clock_n w) |}).
    set (c := {| m_id := clock_src w (clock_n w); m_user := "You"; m_text := t |}).
    change (sendChats (t :: texts) w m) with (sendChats texts w1 (c :: m)).
    destruct (IH w1 (c :: m)) as (news & E & T & I & U & N & S).
    exists (news ++ [c]). rewrite E, N, S. subst w1. cbn [clock_n clock_src].
    repeat split.
    + now rewrite <- app_assoc.
    + rewrite map_app, T. reflexivity.
    + rewrite map_app, I. cbn [Datatypes.length seq map rev]. reflexivity.
    + apply Forall_app. split; [exact U|]. constructor; [reflexivity | constructor].
    + cbn [Datatypes.length]. lia.
Qed.

(** X18.  Chat messages are put in front of the list, newest first, and
    are never dropped: after any number of sends every earlier message is
    still there, behind the new ones, so the chat, unlike the feed, grows
    without bound.  The id of a message is the clock reading at the send. *)
Theorem chat_keeps_everything (texts : list string) (w : World) (m : list ChatMessage) :
  exists news : list ChatMessage,
    fst (sendChats texts w m) = news ++ m
    /\ map m_text news = rev texts
    /\ map m_id news = rev (map (clock_src w) (seq (clock_n w) (List.length texts)))
    /\ Forall (fun c => m_user c = "You"%string) news.
Proof.
  destruct (sendChats_spec texts w m) as (news & E & T & I & U & _).
  exists news. auto.
Qed.

(** Two sends within the same clock reading give two messages the same id. *)
Example chat_ids_can_collide :
  map m_id (fst (sendChats ["a"; "b"]%string
                           {| random_src := fun _ => 0; random_n := 0;
                              clock_src := fun _ => 1700000000000%Z; clock_n := 0 |}
                           initial_chat))
  = [1700000000000; 1700000000000; 1]%Z.
Proof. reflexivity. Qed.

(** ** The digit panel *)




(** ** The feed *)

Section Feed.
Context (P : Platform).

Lemma publish_grows (e : FeedEvent) (f : list FeedEvent) :
  (List.length f <= 50)%nat -> (List.length f <= List.length (publish e f) <= 50)%nat.
Proof.
  intros H. unfold publish, slice_front. rewrite length_firstn.
  cbn [Datatypes.length]. lia.
Qed.

Lemma publish_all_grows (evs : list FeedEvent) (f : list FeedEvent) :
  (List.length f <= 50)%nat ->
  (List.length f <= List.length (fold_right publish f evs) <= 50)%nat.
Proof.
  intros H. induction evs as [|e evs IH]; [simpl; lia|].
  cbn [fold_right]. pose proof (publish_grows e (fold_right publish f evs)). lia.
Qed.

Lemma step_feed_grows (op : Op) (s : Sim) :
  (List.length (feed (app s)) <= 50)%nat ->
  (List.length (feed (app s)) <= List.length (feed (app (exec (step P op) s))) <= 50)%nat.
Proof.
  intros B.
  assert (Pub : forall s' e, feed (app s') = publish e (feed (app s)) ->
                  (List.length (feed (app s)) <= List.length (feed (app s')) <= 50)%nat).
  { intros s' e E. rewrite E. now apply publish_grows. }
  destruct op; unfold step.
  - eapply Pub. unfold tick. eff. reflexivity.
  - destruct (sweep_app P s) as (_ & _ & _ & _ & _ & _ & E7).
    destruct (settle_all_feed P (price (app s)) (orders (app s)) s) as (evs & _ & _ & E).
    rewrite E7, E. now apply publish_all_grows.
  - eapply Pub. unfold placeOrder. eff. reflexivity.
  - destruct (connected (app s)) eqn:C.
    + eapply Pub. rewrite (toggle_connected P s C). reflexivity.
    + destruct (String.eqb_spec (apiToken (app s)) ""%string) as [T|T]; eapply Pub.
      * rewrite (toggle_no_token P s C T). reflexivity.
      * rewrite (toggle_with_token P s C T). reflexivity.
  - unfold promptToken.
    destruct answer as [token|]; [destruct (String.eqb token ""%string)|]; eff; lia.
  - eapply Pub. unfold deposit. eff. reflexivity.
  - eapply Pub. unfold resetAccount. eff. reflexivity.
  - eapply Pub. unfold runIndicator. eff. reflexivity.
Qed.

Lemma run_feed_grows (ops : list Op) (s : Sim) :
  (List.length (feed (app s)) <= 50)%nat ->
  (List.length (feed (app s)) <= List.length (feed (app (run P ops s))) <= 50)%nat.
Proof.
  revert s. induction ops as [|op ops IH]; intros s B; [simpl; lia|].
  cbn [run]. pose proof (step_feed_grows op s B) as S1.
  pose proof (IH (exec (step P op) s) (proj2 S1)). lia.
Qed.

End Feed.

(** X20.  The feed never shrinks: from every state the app reaches, no
    sequence of callbacks leaves fewer feed events than before.  In
    particular the reset button, which empties the orders, keeps the
    feed. *)
Theorem feed_never_shrinks (P : Platform) (w : World) (ops more : list Op) :
  (List.length (feed (app (run P ops (boot P w))))
   <= List.length (feed (app (run P more (run P ops (boot P w))))))%nat.
Proof.
  apply run_feed_grows.
  destruct (boot_app P w) as (_ & _ & _ & _ & _ & _ & F).
  pose proof (run_feed_grows P ops (boot P w)) as G. rewrite F in G.
  apply G. simpl. lia.
Qed.

(** ** The connection flag *)

Section Flag.
Context (P : Platform).

Lemma settle_flag (c : bool) (p : Q) (o : Order) (s : Sim) :
  settle P p o (exec (setConnected c) s)
  = (fst (settle P p o s), exec (setConnected c) (snd (settle P p o s))).
Proof.
  unfold settle. destruct (o_status o); [|reflexivity].
  eff. destruct (Qle_bool _ _); reflexivity.
Qed.

Lemma settle_all_flag (c : bool) (p : Q) (os : list Order) (s : Sim) :
  mapM (settle P p) os (exec (setConnected c) s)
  = (fst (mapM (settle P p) os s), exec (setConnected c) (snd (mapM (settle P p) os s))).
Proof.
  revert s. induction os as [|o os IH]; intros s; [reflexivity|].
  rewrite !mapM_cons, settle_flag. cbn [fst snd]. now rewrite IH.
Qed.

Lemma step_flag (c : bool) (op : Op) (s : Sim) :
  is_toggle op = false ->
  exec (step P op) (exec (setConnected c) s) = exec (setConnected c) (exec (step P op) s).
Proof.
  intros H. destruct op; try discriminate H; unfold step.
  - unfold tick. eff. reflexivity.
  - unfold sweep. rewrite !exec_bind.
    change (fst (gets price (exec (setConnected c) s))) with (price (app s)).
    change (fst (gets price s)) with (price (app s)).
    change (snd (gets price (exec (setConnected c) s))) with (exec (setConnected c) s).
    change (snd (gets price s)) with s.
    change (fst (gets orders (exec (setConnected c) s))) with (orders (app s)).
    change (fst (gets orders s)) with (orders (app s)).
    change (snd (gets orders (exec (setConnected c) s))) with (exec (setConnected c) s).
    change (snd (gets orders s)) with s.
    destruct (orders (app s)) as [|o os]; [reflexivity|].
    rewrite !exec_bind, settle_all_flag. cbn [fst snd]. reflexivity.
  - unfold placeOrder. eff. reflexivity.
  - unfold promptToken.
    destruct answer as [token|]; [destruct (String.eqb token ""%string)|]; eff; reflexivity.
  - unfold deposit. eff. reflexivity.
  - unfold resetAccount. eff. reflexivity.
  - unfold runIndicator. eff. reflexivity.
Qed.

End Flag.

(** X21.  The connection flag gates nothing: every callback except the
    connect button does exactly the same whether the app is connected or
    not (orders are accepted and filled, deposits and resets applied), and
    leaves the flag as it is. *)
Theorem connection_gates_nothing (P : Platform) (c : bool) (ops : list Op) (s : Sim) :
  forallb (fun op => negb (is_toggle op)) ops = true ->
  run P ops (exec (setConnected c) s) = exec (setConnected c) (run P ops s).
Proof.
  revert s. induction ops as [|op ops IH]; intros s H; [reflexivity|].
  cbn [forallb] in H. apply andb_true_iff in H. destruct H as [H1 H2].
  apply negb_true_iff in H1. cbn [run]. rewrite step_flag by exact H1. now apply IH.
Qed.

Lemma connection_gates_nothing_witness :
  run Demo.platform [OpPlaceOrder Buy (1 # 1); OpTick; OpSweep; OpDeposit]
      (exec (setConnected true) Demo.booted)
  = exec (setConnected true)
         (run Demo.platform [OpPlaceOrder Buy (1 # 1); OpTick; OpSweep; OpDeposit]
              Demo.booted).
Proof.
  apply (connection_gates_nothing Demo.platform true). vm_compute. reflexivity.
Defined.

(** ** Decimals of the stored amounts *)

Section Grids.
Context (P : Platform).



Lemma sweep_idle (s : Sim) :
  count_pending (orders (app s)) = 0%nat -> exec (sweep P) s = s.
Proof.
  intros Z. unfold sweep, exec, bind, gets. cbn [fst snd].
  destruct (orders (app s)) as [|o os] eqn:Os; [reflexivity|].
  rewrite (settle_all_idle P _ _ s Z). unfold setOrders, modify. cbn [snd].
  destruct s as [w a]. destruct a. simpl in Os. subst. reflexivity.
Qed.

Lemma timers_idle (ts : list Timer) (s : Sim) :
  count_pending (orders (app s)) = 0%nat ->
  orders (app (run P (map timer_op ts) s)) = orders (app s)
  /\ balance (app (run P (map timer_op ts) s)) = balance (app s).
Proof.
  revert s. induction ts as [|t ts IH]; intros s Z; [now split|].
  cbn [map run]. destruct t; cbn [timer_op step].
  - destruct (tick_keeps P s) as [E1 E2].
    destruct (IH (exec (tick P) s)) as [I1 I2]; [now rewrite E1|].
    split; congruence.
  - rewrite (sweep_idle s Z). now apply IH.
Qed.

End Grids.


(** X23.  Once no order is pending, the timers move only the price, the
    candles and the feed: any sequence of sweeps and ticks leaves the order
    list and the balance exactly as they are. *)
Theorem timers_without_pending (P : Platform) (ts : list Timer) (s : Sim) :
  count_pending (orders (app s)) = 0%nat ->
  orders (app (run P (map timer_op ts) s)) = orders (app s)
  /\ balance (app (run P (map timer_op ts) s)) = balance (app s).
Proof. apply timers_idle. Qed.

Lemma timers_without_pending_witness :
  orders (app (run Demo.platform (map timer_op [FillTimer; PriceTimer; FillTimer])
                   demo_all_filled))
  = orders (app demo_all_filled)
  /\ balance (app (run Demo.platform (map timer_op [FillTimer; PriceTimer; FillTimer])
                       demo_all_filled))
     = balance (app demo_all_filled).
Proof.
  apply (timers_without_pending Demo.platform [FillTimer; PriceTimer; FillTimer]
           demo_all_filled).
  vm_compute. reflexivity.
Defined.
